(** * NeelStack: the topology assembled by [neel_stack.py]

    The program is one CDK stack whose constructor declares, in order, a
    VPC with two subnet tiers, a security group with one ingress rule, an
    EC2 instance, an internal network load balancer with a listener and a
    target group, a VPC link, a REST API with one proxied resource, and
    two stack outputs; the script then instantiates the stack in a fresh
    app and synthesizes it.

    The embedding keeps the construct tree explicit: every constructor
    call of the script adds one node, identified by its path in the tree,
    and the two mutating calls ([add_ingress_rule], [add_commands]) update
    the node they are invoked on.

    The CDK library is not part of the program.  Its constructors appear
    here only as far as the script uses them: each records the arguments
    it is given, under the tree discipline of scopes and unique ids.  Of
    what the library adds by itself, two things are kept because the
    script's results show them: the [Endpoint] output every deployed REST
    API declares, and the shebang line that opens an instance's default
    user data.  Everything else the library does is left out: the further
    nodes it creates below a construct (subnets, deployment and stage,
    the resources of the template), the validation and rewriting of ids,
    the lookup of the image for the stack's region, the addresses it
    allocates and the values it resolves at deployment.  The model
    therefore accepts every run the library accepts, and statements
    about an arbitrary instantiation of the stack are made under the
    hypothesis that it succeeded.  Three
    things the library computes are parameters: the attributes
    [load_balancer_dns_name] and [url] the script reads back, and the
    logical id under which a template names an output. *)

From Stdlib Require Import String List ZArith Bool Lia.
Import ListNotations.
Local Open Scope string_scope.
Local Open Scope list_scope.
Local Open Scope Z_scope.

(** ** Construct paths *)

(** A construct is addressed by the list of ids from the app down to it. *)
Definition Path := list string.

Fixpoint path_eqb (p q : Path) : bool :=
  match p, q with
  | [], [] => true
  | a :: p', b :: q' => String.eqb a b && path_eqb p' q'
  | _, _ => false
  end.

(** ** Properties of the declared constructs *)

Inductive SubnetType := PUBLIC | PRIVATE_WITH_EGRESS | PRIVATE_ISOLATED.

Record SubnetConfiguration := {
  subnet_type : SubnetType;
  cidr_mask : Z;
  name : string
}.

Record VpcProps := {
  max_azs : Z;
  subnet_configuration : list SubnetConfiguration
}.

(** [ec2.MachineImage.generic_linux]: a table from region to AMI id. *)
Definition MachineImage := list (string * string).

Inductive Peer := any_ipv4 | any_ipv6 | ipv4 (cidr : string).
Inductive Port := tcp (p : Z) | udp (p : Z) | all_traffic.

Record IngressRule := {
  rule_peer : Peer;
  rule_port : Port;
  rule_description : string
}.

Record SecurityGroupProps := {
  sg_vpc : Path;
  sg_description : string;
  allow_all_outbound : bool;
  ingress_rules : list IngressRule
}.

Record SubnetSelection := { selected_subnet_type : SubnetType }.

Record InstanceProps := {
  instance_type : string;
  machine_image : MachineImage;
  instance_vpc : Path;
  security_group : Path;
  vpc_subnets : SubnetSelection;
  user_data : list string
}.

Record NetworkLoadBalancerProps := {
  nlb_vpc : Path;
  internet_facing : bool;
  cross_zone_enabled : bool
}.

Record ListenerProps := {
  listener_load_balancer : Path;
  listener_port : Z
}.

Inductive Protocol := HTTP | HTTPS | TCP.

(** [cdk.Duration.seconds n] *)
Inductive Duration := seconds (n : Z).

Definition to_seconds (d : Duration) : Z := let (n) := d in n.

Record HealthCheck := {
  path : string;
  port : string;
  protocol : Protocol;
  interval : Duration;
  timeout : Duration
}.

Inductive Target := InstanceTarget (instance : Path).

Definition target_instance (t : Target) : Path := let (i) := t in i.

Record TargetGroupProps := {
  tg_listener : Path;
  tg_port : Z;
  tg_targets : list Target;
  health_check : HealthCheck
}.

Record VpcLinkProps := { link_targets : list Path }.

Inductive EndpointType := REGIONAL | EDGE | PRIVATE.

Record RestApiProps := { endpoint_types : list EndpointType }.

Record ResourceProps := {
  parent : Path;
  path_part : string
}.

Inductive IntegrationType := HTTP_PROXY | HTTP_CUSTOM | AWS_PROXY | MOCK.
Inductive ConnectionType := VPC_LINK | INTERNET.

Record IntegrationOptions := {
  connection_type : ConnectionType;
  vpc_link : Path
}.

Record Integration := {
  integration_type : IntegrationType;
  integration_http_method : string;
  uri : string;
  options : IntegrationOptions
}.

Record MethodProps := {
  method_resource : Path;
  http_method : string;
  method_integration : Integration
}.

Record CfnOutputProps := {
  value : string;
  description : option string
}.

Record Environment := {
  account : string;
  region : string
}.

(** The keyword arguments the stack forwards to [Stack.__init__]. *)
Record StackProps := { env : option Environment }.

(** ** The construct tree *)

Inductive Construct :=
| StackC (p : StackProps)
| VpcC (p : VpcProps)
| SecurityGroupC (p : SecurityGroupProps)
| InstanceC (p : InstanceProps)
| NetworkLoadBalancerC (p : NetworkLoadBalancerProps)
| NetworkListenerC (p : ListenerProps)
| NetworkTargetGroupC (p : TargetGroupProps)
| VpcLinkC (p : VpcLinkProps)
| RestApiC (p : RestApiProps)
| ResourceC (p : ResourceProps)
| MethodC (p : MethodProps)
| CfnOutputC (p : CfnOutputProps).

Inductive Kind :=
| KStack | KVpc | KSecurityGroup | KInstance | KNetworkLoadBalancer
| KNetworkListener | KNetworkTargetGroup | KVpcLink | KRestApi | KResource
| KMethod | KCfnOutput.

Definition kind_of (c : Construct) : Kind :=
  match c with
  | StackC _ => KStack
  | VpcC _ => KVpc
  | SecurityGroupC _ => KSecurityGroup
  | InstanceC _ => KInstance
  | NetworkLoadBalancerC _ => KNetworkLoadBalancer
  | NetworkListenerC _ => KNetworkListener
  | NetworkTargetGroupC _ => KNetworkTargetGroup
  | VpcLinkC _ => KVpcLink
  | RestApiC _ => KRestApi
  | ResourceC _ => KResource
  | MethodC _ => KMethod
  | CfnOutputC _ => KCfnOutput
  end.

Definition Kind_eqb (a b : Kind) : bool :=
  match a, b with
  | KStack, KStack | KVpc, KVpc | KSecurityGroup, KSecurityGroup
  | KInstance, KInstance | KNetworkLoadBalancer, KNetworkLoadBalancer
  | KNetworkListener, KNetworkListener
  | KNetworkTargetGroup, KNetworkTargetGroup | KVpcLink, KVpcLink
  | KRestApi, KRestApi | KResource, KResource | KMethod, KMethod
  | KCfnOutput, KCfnOutput => true
  | _, _ => false
  end.

(** Nodes are kept in declaration order. *)
Definition Tree := list (Path * Construct).

Fixpoint lookup (p : Path) (t : Tree) : option Construct :=
  match t with
  | [] => None
  | (q, c) :: t' => if path_eqb p q then Some c else lookup p t'
  end.

Fixpoint update (p : Path) (c' : Construct) (t : Tree) : Tree :=
  match t with
  | [] => []
  | (q, c) :: t' =>
      if path_eqb p q then (q, c') :: t' else (q, c) :: update p c' t'
  end.

(** ** Assembly steps: state passing over the tree, with failure *)

Inductive Error :=
| DuplicateConstruct (p : Path)
| NoSuchConstruct (p : Path)
| WrongConstruct (p : Path).

Definition M (A : Type) : Type := Tree -> Error + (A * Tree).

Definition ret {A} (a : A) : M A := fun t => inr (a, t).

Definition bind {A B} (m : M A) (k : A -> M B) : M B :=
  fun t => match m t with
           | inl e => inl e
           | inr (a, t') => k a t'
           end.

Declare Scope asm_scope.
Delimit Scope asm_scope with asm.
Notation "x <- m ;; k" := (bind m (fun x => k))
  (at level 61, m at next level, right associativity) : asm_scope.
Notation "m ;;; k" := (bind m (fun _ => k))
  (at level 61, right associativity) : asm_scope.
Local Open Scope asm_scope.

(** The construct library's tree discipline: a new construct is attached
    under an existing scope (the app itself is the empty path), and ids
    are unique within a scope.  Ids are taken as given: the library's
    checks on their form are not modelled, and since a scope is a path
    here, a scope that does not exist is refused. *)
Definition add_child (scope : Path) (id : string) (c : Construct) : M Path :=
  fun t =>
    let p := scope ++ [id] in
    match scope, lookup scope t with
    | _ :: _, None => inl (NoSuchConstruct scope)
    | _, _ =>
        match lookup p t with
        | Some _ => inl (DuplicateConstruct p)
        | None => inr (p, t ++ [(p, c)])
        end
    end.

(** A method call on a construct: [f] returns the construct as the call
    leaves it, or [None] when the node is not of the receiver's class. *)
Definition mutate (p : Path) (f : Construct -> option Construct) : M unit :=
  fun t =>
    match lookup p t with
    | None => inl (NoSuchConstruct p)
    | Some c =>
        match f c with
        | None => inl (WrongConstruct p)
        | Some c' => inr (tt, update p c' t)
        end
    end.

(** ** The library calls the stack makes

    Each constructor attaches one node carrying the arguments it was
    given; the handle it returns is the node's path. *)

Module ec2.

Definition Vpc (scope : Path) (id : string) (azs : Z)
    (subnets : list SubnetConfiguration) : M Path :=
  add_child scope id
    (VpcC {| max_azs := azs; subnet_configuration := subnets |}).

Definition generic_linux (ami_map : list (string * string)) : MachineImage :=
  ami_map.

Definition SecurityGroup (scope : Path) (id : string) (vpc : Path)
    (descr : string) (outbound : bool) : M Path :=
  add_child scope id
    (SecurityGroupC {| sg_vpc := vpc; sg_description := descr;
                       allow_all_outbound := outbound;
                       ingress_rules := [] |}).

Definition add_ingress_rule (group : Path) (peer : Peer) (connection : Port)
    (descr : string) : M unit :=
  mutate group (fun c =>
    match c with
    | SecurityGroupC g =>
        Some (SecurityGroupC
                {| sg_vpc := sg_vpc g; sg_description := sg_description g;
                   allow_all_outbound := allow_all_outbound g;
                   ingress_rules :=
                     ingress_rules g ++
                       [{| rule_peer := peer; rule_port := connection;
                           rule_description := descr |}] |})
    | _ => None
    end).

(** The user data of a Linux instance is kept as the lines it renders
    to; by default it opens with the shebang line. *)
Definition Instance (scope : Path) (id : string) (ty : string)
    (image : MachineImage) (vpc : Path) (group : Path)
    (subnets : SubnetSelection) : M Path :=
  add_child scope id
    (InstanceC {| instance_type := ty; machine_image := image;
                  instance_vpc := vpc; security_group := group;
                  vpc_subnets := subnets; user_data := ["#!/bin/bash"] |}).

(** [instance.user_data.add_commands(script)] *)
Definition add_commands (instance : Path) (commands : string) : M unit :=
  mutate instance (fun c =>
    match c with
    | InstanceC i =>
        Some (InstanceC
                {| instance_type := instance_type i;
                   machine_image := machine_image i;
                   instance_vpc := instance_vpc i;
                   security_group := security_group i;
                   vpc_subnets := vpc_subnets i;
                   user_data := user_data i ++ [commands] |})
    | _ => None
    end).

End ec2.

Module elbv2.

Definition NetworkLoadBalancer (scope : Path) (id : string) (vpc : Path)
    (facing : bool) (cross_zone : bool) : M Path :=
  add_child scope id
    (NetworkLoadBalancerC {| nlb_vpc := vpc; internet_facing := facing;
                             cross_zone_enabled := cross_zone |}).

Definition add_listener (nlb : Path) (id : string) (p : Z) : M Path :=
  add_child nlb id
    (NetworkListenerC {| listener_load_balancer := nlb;
                         listener_port := p |}).

(** The node is addressed by the id given (the library derives the id
    it stores from it). *)
Definition add_targets (listener : Path) (id : string) (p : Z)
    (ts : list Target) (hc : HealthCheck) : M Path :=
  add_child listener id
    (NetworkTargetGroupC {| tg_listener := listener; tg_port := p;
                            tg_targets := ts; health_check := hc |}).

End elbv2.

Module apigw.

Definition VpcLink (scope : Path) (id : string) (ts : list Path) : M Path :=
  add_child scope id (VpcLinkC {| link_targets := ts |}).

(** A REST API is deployed unless told otherwise, and a deployed API
    declares its URL as the output [Endpoint] below itself.  [url] is the
    library's [api.url] attribute. *)
Definition RestApi (url : Path -> string) (scope : Path) (id : string)
    (types : list EndpointType) : M Path :=
  api <- add_child scope id (RestApiC {| endpoint_types := types |}) ;;
  add_child api "Endpoint"
    (CfnOutputC {| value := url api; description := None |}) ;;;
  ret api.

(** [api.root]: the api's root resource is addressed by the api itself
    (the library keeps it as a child of the api). *)
Definition root (api : Path) : Path := api.

Definition add_resource (r : Path) (part : string) : M Path :=
  add_child r part (ResourceC {| parent := r; path_part := part |}).

Definition add_method (r : Path) (verb : string)
    (integration : Integration) : M Path :=
  add_child r verb
    (MethodC {| method_resource := r; http_method := verb;
                method_integration := integration |}).

End apigw.

Definition CfnOutput (scope : Path) (id : string) (v : string)
    (descr : option string) : M Path :=
  add_child scope id (CfnOutputC {| value := v; description := descr |}).

(** ** Synthesis *)

Fixpoint is_prefix (q p : Path) : bool :=
  match q, p with
  | [], _ => true
  | a :: q', b :: p' => String.eqb a b && is_prefix q' p'
  | _ :: _, [] => false
  end.

Definition strictly_above (q p : Path) : bool :=
  is_prefix q p && negb (path_eqb q p).

Definition is_stack (c : Construct) : bool :=
  match c with StackC _ => true | _ => false end.

Definition is_output (c : Construct) : bool :=
  match c with CfnOutputC _ => true | _ => false end.

(** A construct belongs to the nearest stack above it: [s] owns [p] when
    [s] is strictly above [p] and no other stack lies between them. *)
Definition owns (t : Tree) (s p : Path) : bool :=
  strictly_above s p &&
  negb (existsb (fun qc => is_stack (snd qc) && strictly_above s (fst qc)
                           && strictly_above (fst qc) p) t).

(** What [app.synth()] hands over for one stack: the constructs the stack
    owns and its outputs, each named by the logical id the library
    derives from the output's path within the stack. *)
Record Template := {
  constructs : Tree;
  outputs : list (string * string)
}.

Fixpoint outputs_of (logical_id : Path -> string) (s : Path) (t : Tree)
    : list (string * string) :=
  match t with
  | [] => []
  | (p, CfnOutputC o) :: t' =>
      (logical_id (skipn (length s) p), value o)
        :: outputs_of logical_id s t'
  | _ :: t' => outputs_of logical_id s t'
  end.

Definition template (logical_id : Path -> string) (t : Tree) (s : Path)
    : Template :=
  let owned := filter (fun pc => owns t s (fst pc)) t in
  {| constructs :=
       filter (fun pc => negb (is_output (snd pc)) && negb (is_stack (snd pc)))
         owned;
     outputs := outputs_of logical_id s owned |}.

Definition stacks (t : Tree) : list Path :=
  map fst (filter (fun pc => is_stack (snd pc)) t).

(** One template per stack of the tree. *)
Definition CloudAssembly := list (Path * Template).

Definition synth (logical_id : Path -> string) (t : Tree) : CloudAssembly :=
  map (fun s => (s, template logical_id t s)) (stacks t).

(** ** The stack *)

Definition ami_id : string := "ami-0ba8562d785e35387".

Definition nginx_install_script : string := "
            # Install Nginx
            sudo apt-get update
            sudo apt-get install nginx -y
            sudo systemctl start nginx
        ".

Section NeelStack.

(** Attributes the provisioning backend supplies: the load balancer's DNS
    name and the API's endpoint URL.  The stack only passes them on. *)
Variable load_balancer_dns_name : Path -> string.
Variable url : Path -> string.

(** The logical id the library gives an output, from the output's path
    within its stack. *)
Variable logical_id : Path -> string.

Definition NeelStack (scope : Path) (id : string) (kwargs : StackProps)
    : M Path :=
  self <- add_child scope id (StackC kwargs) ;;
  vpc <- ec2.Vpc self "MyVpc" 1
           [ {| subnet_type := PUBLIC; cidr_mask := 24; name := "Public" |};
             {| subnet_type := PRIVATE_WITH_EGRESS; cidr_mask := 24;
                name := "Private" |} ] ;;
  let ami := ec2.generic_linux [("us-east-1", ami_id)] in
  CfnOutput self "AMI_ID" ami_id None ;;;
  security_group <- ec2.SecurityGroup self "MySecurityGroup" vpc
                      "Allow HTTP inbound traffic" true ;;
  ec2.add_ingress_rule security_group any_ipv4 (tcp 80)
    "Allow HTTP traffic" ;;;
  instance <- ec2.Instance self "MyEC2Instance1" "t2.micro" ami vpc
                security_group
                {| selected_subnet_type := PRIVATE_WITH_EGRESS |} ;;
  ec2.add_commands instance nginx_install_script ;;;
  nlb <- elbv2.NetworkLoadBalancer self "MyNLB" vpc false true ;;
  listener_80 <- elbv2.add_listener nlb "Listener" 80 ;;
  target_group <- elbv2.add_targets listener_80 "TargetGroup" 80
                    [InstanceTarget instance]
                    {| path := "/"; port := "80"; protocol := HTTP;
                       interval := seconds 30; timeout := seconds 10 |} ;;
  vpc_link <- apigw.VpcLink self "MyVpcLink" [nlb] ;;
  api <- apigw.RestApi url self "MyRestApi" [REGIONAL] ;;
  resource <- apigw.add_resource (apigw.root api) "mynlb" ;;
  let integration :=
    {| integration_type := HTTP_PROXY;
       integration_http_method := "ANY";
       uri := ("http://" ++ load_balancer_dns_name nlb)%string;
       options := {| connection_type := VPC_LINK; vpc_link := vpc_link |} |} in
  apigw.add_method resource "ANY" integration ;;;
  CfnOutput self "ApiEndpoint" (url api) (Some "API Gateway Endpoint") ;;;
  ret self.



End NeelStack.

(** ** Well-formedness of an assembled tree *)



(** The handles a construct holds, each with the classes its target may
    have. *)
Definition references (c : Construct) : list (Path * list Kind) :=
  match c with
  | StackC _ | VpcC _ | RestApiC _ | CfnOutputC _ => []
  | SecurityGroupC g => [(sg_vpc g, [KVpc])]
  | InstanceC i =>
      [(instance_vpc i, [KVpc]); (security_group i, [KSecurityGroup])]
  | NetworkLoadBalancerC n => [(nlb_vpc n, [KVpc])]
  | NetworkListenerC l => [(listener_load_balancer l, [KNetworkLoadBalancer])]
  | NetworkTargetGroupC g =>
      (tg_listener g, [KNetworkListener])
        :: map (fun x => (target_instance x, [KInstance])) (tg_targets g)
  | VpcLinkC l => map (fun x => (x, [KNetworkLoadBalancer])) (link_targets l)
  | ResourceC r => [(parent r, [KRestApi; KResource])]
  | MethodC m =>
      [(method_resource m, [KRestApi; KResource]);
       (vpc_link (options (method_integration m)), [KVpcLink])]
  end.

Definition resolves (t : Tree) (r : Path * list Kind) : Prop :=
  exists c, lookup (fst r) t = Some c /\ In (kind_of c) (snd r).

Definition Resolved (t : Tree) : Prop :=
  forall p c, In (p, c) t -> forall r, In r (references c) -> resolves t r.

Definition resolvesb (t : Tree) (r : Path * list Kind) : bool :=
  match lookup (fst r) t with
  | Some c => existsb (Kind_eqb (kind_of c)) (snd r)
  | None => false
  end.

Definition resolvedb (t : Tree) : bool :=
  forallb (fun pc => forallb (resolvesb t) (references (snd pc))) t.

(** Placement of an instance: its subnet tier is one the VPC declares, and
    its security group belongs to the same VPC. *)
Definition placed (t : Tree) (i : InstanceProps) : Prop :=
  exists v g,
    lookup (instance_vpc i) t = Some (VpcC v) /\
    In (selected_subnet_type (vpc_subnets i))
       (map subnet_type (subnet_configuration v)) /\
    lookup (security_group i) t = Some (SecurityGroupC g) /\
    sg_vpc g = instance_vpc i.


(** A step keeps an invariant of the tree whenever it succeeds. *)
Definition preserves {A} (I : Tree -> Prop) (m : M A) : Prop :=
  forall t a t', I t -> m t = inr (a, t') -> I t'.

(** Every node of [t'] is a node [t] already had, or satisfies [Q]. *)
Definition grown_by (Q : Construct -> Prop) (t t' : Tree) : Prop :=
  Forall (fun pc => In pc t \/ Q (snd pc)) t'.

(** The health check the stack gives its target group. *)
Definition stack_health_check (c : Construct) : Prop :=
  match c with
  | NetworkTargetGroupC g =>
      timeout (health_check g) = seconds 10 /\
      interval (health_check g) = seconds 30
  | _ => True
  end.

(** The proxy route the stack declares: a resource [mynlb] and a method
    [ANY] forwarding to a plain-HTTP address over the VPC link. *)
Definition stack_proxy_route (dns : Path -> string) (c : Construct) : Prop :=
  match c with
  | ResourceC r => path_part r = "mynlb"
  | MethodC m =>
      http_method m = "ANY" /\
      integration_type (method_integration m) = HTTP_PROXY /\
      integration_http_method (method_integration m) = "ANY" /\
      connection_type (options (method_integration m)) = VPC_LINK /\
      exists lb, uri (method_integration m) = ("http://" ++ dns lb)%string
  | _ => True
  end.

(** The topology of the end-to-end scenario: a public and a private tier
    of mask 24, HTTP from anywhere, one instance in the private tier behind
    an internal load balancer listening on port 80, health-checked over
    HTTP on [/] every 30s with a 10s timeout, bridged to a route that
    forwards any method as an HTTP proxy over that bridge. *)
Definition canonical (t : Tree) : Prop :=
  exists pv v ps g pi i pn n pl l pg tg pk k pm m,
    In (pv, VpcC v) t /\
    map (fun s => (subnet_type s, cidr_mask s)) (subnet_configuration v)
      = [(PUBLIC, 24); (PRIVATE_WITH_EGRESS, 24)] /\
    In (ps, SecurityGroupC g) t /\
    sg_vpc g = pv /\
    map (fun r => (rule_peer r, rule_port r)) (ingress_rules g)
      = [(any_ipv4, tcp 80)] /\
    In (pi, InstanceC i) t /\
    instance_vpc i = pv /\
    security_group i = ps /\
    selected_subnet_type (vpc_subnets i) = PRIVATE_WITH_EGRESS /\
    In (pn, NetworkLoadBalancerC n) t /\
    nlb_vpc n = pv /\
    internet_facing n = false /\
    In (pl, NetworkListenerC l) t /\
    listener_load_balancer l = pn /\
    listener_port l = 80 /\
    In (pg, NetworkTargetGroupC tg) t /\
    tg_listener tg = pl /\
    tg_targets tg = [InstanceTarget pi] /\
    health_check tg = {| path := "/"; port := "80"; protocol := HTTP;
                         interval := seconds 30; timeout := seconds 10 |} /\
    In (pk, VpcLinkC k) t /\
    link_targets k = [pn] /\
    In (pm, MethodC m) t /\
    http_method m = "ANY" /\
    integration_type (method_integration m) = HTTP_PROXY /\
    integration_http_method (method_integration m) = "ANY" /\
    connection_type (options (method_integration m)) = VPC_LINK /\
    vpc_link (options (method_integration m)) = pk.

(** Freshness of a stack's place in a tree: nothing sits at or below
    [self] yet. *)
Definition nothing_below (self : Path) (t : Tree) : Prop :=
  forall s, lookup (self ++ s) t = None.

(** A subtree given by paths relative to [self]. *)
Definition rebase (self : Path) (l : Tree) : Tree :=
  map (fun sc => (self ++ fst sc, snd sc)) l.

(** ** A concrete run, with sample values for the backend's attributes *)

Definition sample_dns (lb : Path) : string := "internal-nlb.elb.amazonaws.com".
Definition sample_url (api : Path) : string :=
  "https://api.execute-api.us-east-1.amazonaws.com/prod/".

(** A stand-in for the library's logical ids: the path's components
    joined together. *)
Definition sample_logical_id (p : Path) : string := String.concat "" p.

Definition sample_kwargs : StackProps :=
  {| env := Some {| account := "851725255821"; region := "us-east-1" |} |}.

Definition sample_tree : Tree :=
  Eval vm_compute in
    match NeelStack sample_dns sample_url [] "NeelStack" sample_kwargs [] with
    | inr (_, t) => t
    | inl _ => []
    end.

(** ** The nodes the constructor records *)

(** Paths of the nodes the model records for one instantiation, relative
    to the stack itself, in declaration order. *)
Definition stack_suffixes : list Path :=
  [ []; ["MyVpc"]; ["AMI_ID"]; ["MySecurityGroup"]; ["MyEC2Instance1"];
    ["MyNLB"]; ["MyNLB"; "Listener"]; ["MyNLB"; "Listener"; "TargetGroup"];
    ["MyVpcLink"]; ["MyRestApi"]; ["MyRestApi"; "Endpoint"];
    ["MyRestApi"; "mynlb"];
    ["MyRestApi"; "mynlb"; "ANY"]; ["ApiEndpoint"] ].

(** None of the stack's paths is taken in [t]. *)
Definition fresh_for (self : Path) (t : Tree) : Prop :=
  forall s, In s stack_suffixes -> lookup (self ++ s) t = None.

(** Those nodes as the constructor leaves them, with the handles the
    script's variables hold. *)
Definition stack_constructs (dns url : Path -> string) (self : Path)
    (kwargs : StackProps) : Tree :=
  let vpc := self ++ ["MyVpc"] in
  let security_group := self ++ ["MySecurityGroup"] in
  let instance := self ++ ["MyEC2Instance1"] in
  let nlb := self ++ ["MyNLB"] in
  let listener_80 := nlb ++ ["Listener"] in
  let vpc_link := self ++ ["MyVpcLink"] in
  let api := self ++ ["MyRestApi"] in
  let resource := api ++ ["mynlb"] in
  rebase self
    [ ([], StackC kwargs);
      (["MyVpc"],
       VpcC {| max_azs := 1;
               subnet_configuration :=
                 [ {| subnet_type := PUBLIC; cidr_mask := 24;
                      name := "Public" |};
                   {| subnet_type := PRIVATE_WITH_EGRESS; cidr_mask := 24;
                      name := "Private" |} ] |});
      (["AMI_ID"], CfnOutputC {| value := ami_id; description := None |});
      (["MySecurityGroup"],
       SecurityGroupC
         {| sg_vpc := vpc; sg_description := "Allow HTTP inbound traffic";
            allow_all_outbound := true;
            ingress_rules :=
              [{| rule_peer := any_ipv4; rule_port := tcp 80;
                  rule_description := "Allow HTTP traffic" |}] |});
      (["MyEC2Instance1"],
       InstanceC
         {| instance_type := "t2.micro";
            machine_image := [("us-east-1", ami_id)];
            instance_vpc := vpc; security_group := security_group;
            vpc_subnets := {| selected_subnet_type := PRIVATE_WITH_EGRESS |};
            user_data := ["#!/bin/bash"; nginx_install_script] |});
      (["MyNLB"],
       NetworkLoadBalancerC
         {| nlb_vpc := vpc; internet_facing := false;
            cross_zone_enabled := true |});
      (["MyNLB"; "Listener"],
       NetworkListenerC
         {| listener_load_balancer := nlb; listener_port := 80 |});
      (["MyNLB"; "Listener"; "TargetGroup"],
       NetworkTargetGroupC
         {| tg_listener := listener_80; tg_port := 80;
            tg_targets := [InstanceTarget instance];
            health_check :=
              {| path := "/"; port := "80"; protocol := HTTP;
                 interval := seconds 30; timeout := seconds 10 |} |});
      (["MyVpcLink"], VpcLinkC {| link_targets := [nlb] |});
      (["MyRestApi"], RestApiC {| endpoint_types := [REGIONAL] |});
      (["MyRestApi"; "Endpoint"],
       CfnOutputC {| value := url api; description := None |});
      (["MyRestApi"; "mynlb"],
       ResourceC {| parent := api; path_part := "mynlb" |});
      (["MyRestApi"; "mynlb"; "ANY"],
       MethodC
         {| method_resource := resource; http_method := "ANY";
            method_integration :=
              {| integration_type := HTTP_PROXY;
                 integration_http_method := "ANY";
                 uri := ("http://" ++ dns nlb)%string;
                 options := {| connection_type := VPC_LINK;
                               vpc_link := vpc_link |} |} |});
      (["ApiEndpoint"],
       CfnOutputC {| value := url api;
                     description := Some "API Gateway Endpoint" |}) ].

(** What a construct exposes: a security group admits TCP port 80 only,
    an instance sits in the private tier, a load balancer is internal. *)
Definition private_backend (c : Construct) : Prop :=
  match c with
  | SecurityGroupC g =>
      forall r, In r (ingress_rules g) -> rule_port r = tcp 80
  | InstanceC i => selected_subnet_type (vpc_subnets i) = PRIVATE_WITH_EGRESS
  | NetworkLoadBalancerC n => internet_facing n = false
  | _ => True
  end.

(** A second stack beside the sample one. *)
Definition sample_tree2 : Tree :=
  Eval vm_compute in
    match NeelStack sample_dns sample_url [] "NeelStack2" sample_kwargs
            sample_tree with
    | inr (_, t) => t
    | inl _ => []
    end.

(** * Properties *)

(** ** Paths and lookups *)

Lemma path_eqb_eq (p q : Path) : path_eqb p q = true <-> p = q.
Proof.
  revert q; induction p as [|a p IH]; intros [|b q]; simpl;
    try (split; [discriminate | congruence]); try tauto.
  rewrite andb_true_iff, String.eqb_eq, IH.
  split; [intros [-> ->]; reflexivity | intros E; inversion E; auto].
Qed.

Lemma path_eqb_refl (p : Path) : path_eqb p p = true.
Proof. apply path_eqb_eq; reflexivity. Qed.

Lemma Kind_eqb_eq (a b : Kind) : Kind_eqb a b = true <-> a = b.
Proof. destruct a, b; simpl; split; congruence. Qed.

Lemma lookup_In (p : Path) (t : Tree) (c : Construct) :
  lookup p t = Some c -> In (p, c) t.
Proof.
  induction t as [|[q d] t IH]; simpl; [discriminate|].
  destruct (path_eqb p q) eqn:E.
  - apply path_eqb_eq in E; subst q. intros [= ->]. now left.
  - intros H; right; auto.
Qed.

Lemma lookup_None (p : Path) (t : Tree) :
  lookup p t = None <-> ~ In p (map fst t).
Proof.
  induction t as [|[q d] t IH]; simpl; [tauto|].
  destruct (path_eqb p q) eqn:E.
  - apply path_eqb_eq in E; subst q. split; [discriminate | tauto].
  - rewrite IH. split; [|tauto].
    intros H [->|H']; [|tauto]. now rewrite path_eqb_refl in E.
Qed.

Lemma lookup_app_old (p : Path) (t l : Tree) (c : Construct) :
  lookup p t = Some c -> lookup p (t ++ l) = Some c.
Proof.
  induction t as [|[q d] t IH]; simpl; [discriminate|].
  destruct (path_eqb p q); auto.
Qed.

Lemma lookup_app_new (p : Path) (t : Tree) (c : Construct) :
  lookup p t = None -> lookup p (t ++ [(p, c)]) = Some c.
Proof.
  induction t as [|[q d] t IH]; simpl.
  - now rewrite path_eqb_refl.
  - destruct (path_eqb p q); [discriminate | auto].
Qed.

Lemma update_paths (p : Path) (c : Construct) (t : Tree) :
  map fst (update p c t) = map fst t.
Proof.
  induction t as [|[q d] t IH]; simpl; [reflexivity|].
  destruct (path_eqb p q); simpl; congruence.
Qed.

Lemma update_In (p : Path) (c : Construct) (t : Tree) (x : Path * Construct) :
  In x (update p c t) -> In x t \/ snd x = c.
Proof.
  induction t as [|[q d] t IH]; simpl; [tauto|].
  destruct (path_eqb p q); simpl.
  - intros [<-|H]; auto.
  - intros [<-|H]; auto. destruct (IH H); auto.
Qed.

(** ** What a successful step did *)

Lemma add_child_inv scope id c t p t' :
  add_child scope id c t = inr (p, t') ->
  p = scope ++ [id] /\ lookup p t = None /\ t' = t ++ [(p, c)].
Proof.
  unfold add_child.
  destruct scope as [|s scope'].
  - destruct (lookup ([] ++ [id]) t) eqn:E; [discriminate|].
    intros [= <- <-]; auto.
  - destruct (lookup (s :: scope') t); [|discriminate].
    destruct (lookup ((s :: scope') ++ [id]) t) eqn:E; [discriminate|].
    intros [= <- <-]; auto.
Qed.

Lemma add_child_scope s scope id c t p t' :
  add_child (s :: scope) id c t = inr (p, t') ->
  exists d, lookup (s :: scope) t = Some d.
Proof.
  unfold add_child.
  destruct (lookup (s :: scope) t) as [d|]; [eauto | discriminate].
Qed.

Lemma mutate_inv p f t u t' :
  mutate p f t = inr (u, t') ->
  exists c c', lookup p t = Some c /\ f c = Some c' /\ t' = update p c' t.
Proof.
  unfold mutate.
  destruct (lookup p t) as [c|]; [|discriminate].
  destruct (f c) as [c'|] eqn:E; [|discriminate].
  intros [= _ <-]; eauto.
Qed.

(** ** Invariants carried through the assembly steps *)

Lemma preserves_ret {A} (I : Tree -> Prop) (a : A) : preserves I (ret a).
Proof. intros t b t' H [= _ <-]; exact H. Qed.

Lemma preserves_bind {A B} (I : Tree -> Prop) (m : M A) (k : A -> M B) :
  preserves I m -> (forall a, preserves I (k a)) -> preserves I (bind m k).
Proof.
  intros Hm Hk t b t' H. unfold bind.
  destruct (m t) as [e|[a t1]] eqn:E; [discriminate|].
  intros E'. exact (Hk a t1 b t' (Hm t a t1 H E) E').
Qed.

Lemma add_child_grows Q t0 scope id c :
  Q c -> preserves (grown_by Q t0) (add_child scope id c).
Proof.
  intros HQ t p t' H E. apply add_child_inv in E as (_ & _ & ->).
  apply Forall_app; split; [exact H|]. constructor; [now right | constructor].
Qed.

Lemma mutate_grows Q t0 p f :
  (forall c c', f c = Some c' -> Q c') -> preserves (grown_by Q t0) (mutate p f).
Proof.
  intros Hf t u t' H E. apply mutate_inv in E as (c & c' & _ & Ef & ->).
  unfold grown_by in *. rewrite Forall_forall in *. intros x Hx.
  destruct (update_In _ _ _ _ Hx) as [Hin | ->]; [auto|].
  right; eauto.
Qed.

Lemma add_child_unique scope id c :
  preserves (fun t => NoDup (map fst t)) (add_child scope id c).
Proof.
  intros t p t' H E. apply add_child_inv in E as (_ & Hn & ->).
  rewrite map_app; simpl. apply lookup_None in Hn.
  apply NoDup_app; repeat split; auto.
  - constructor; [simpl; tauto | constructor].
  - intros x Hx [<-|[]]; contradiction.
Qed.

Lemma mutate_unique p f :
  preserves (fun t => NoDup (map fst t)) (mutate p f).
Proof.
  intros t u t' H E. apply mutate_inv in E as (c & c' & _ & _ & ->).
  now rewrite update_paths.
Qed.

(** ** Checking references *)

Lemma resolvesb_sound t r : resolvesb t r = true -> resolves t r.
Proof.
  unfold resolvesb, resolves.
  destruct (lookup (fst r) t) as [c|]; [|discriminate].
  intros H. exists c; split; [reflexivity|].
  apply existsb_exists in H as (k & Hk & E).
  apply Kind_eqb_eq in E; congruence.
Qed.

Lemma resolvedb_sound t : resolvedb t = true -> Resolved t.
Proof.
  unfold resolvedb, Resolved. rewrite forallb_forall.
  intros H p c Hin r Hr. specialize (H _ Hin); simpl in H.
  rewrite forallb_forall in H. apply resolvesb_sound; auto.
Qed.

Lemma bind_inv {A B} (m : M A) (k : A -> M B) t b t' :
  bind m k t = inr (b, t') ->
  exists a t1, m t = inr (a, t1) /\ k a t1 = inr (b, t').
Proof.
  unfold bind. destruct (m t) as [e|[a t1]]; [discriminate|]. eauto.
Qed.

Lemma lookup_update (q p : Path) (c' : Construct) (t : Tree) :
  lookup q (update p c' t) =
  if path_eqb q p
  then match lookup q t with Some _ => Some c' | None => None end
  else lookup q t.
Proof.
  induction t as [|[r d] t IH]; simpl.
  - now destruct (path_eqb q p).
  - destruct (path_eqb p r) eqn:Epr; simpl.
    + apply path_eqb_eq in Epr; subst r.
      destruct (path_eqb q p); reflexivity.
    + destruct (path_eqb q r) eqn:Eqr.
      * apply path_eqb_eq in Eqr; subst r.
        destruct (path_eqb q p) eqn:Eqp; [|reflexivity].
        apply path_eqb_eq in Eqp; subst q.
        now rewrite path_eqb_refl in Epr.
      * exact IH.
Qed.

Lemma add_child_lookup_new scope id c t p t' :
  add_child scope id c t = inr (p, t') -> lookup p t' = Some c.
Proof.
  intros E. apply add_child_inv in E as (_ & Hn & ->).
  now apply lookup_app_new.
Qed.

Lemma add_child_lookup_old scope id c t p t' q d :
  add_child scope id c t = inr (p, t') ->
  lookup q t = Some d -> lookup q t' = Some d.
Proof.
  intros E H. apply add_child_inv in E as (_ & _ & ->).
  now apply lookup_app_old.
Qed.

Lemma mutate_lookup_same p f t u t' :
  mutate p f t = inr (u, t') ->
  exists c c', lookup p t = Some c /\ f c = Some c' /\ lookup p t' = Some c'.
Proof.
  intros E. apply mutate_inv in E as (c & c' & Hc & Hf & ->).
  exists c, c'. repeat split; auto.
  now rewrite lookup_update, path_eqb_refl, Hc.
Qed.

Lemma mutate_lookup_other p f t u t' q d :
  mutate p f t = inr (u, t') ->
  q <> p -> lookup q t = Some d -> lookup q t' = Some d.
Proof.
  intros E Hne H. apply mutate_inv in E as (c & c' & _ & _ & ->).
  rewrite lookup_update.
  destruct (path_eqb q p) eqn:Eq; [|exact H].
  apply path_eqb_eq in Eq; contradiction.
Qed.

(** ** The stack's constructor *)

Ltac stack_steps :=
  unfold NeelStack, ec2.Vpc, ec2.SecurityGroup, ec2.add_ingress_rule,
    ec2.Instance, ec2.add_commands, elbv2.NetworkLoadBalancer,
    elbv2.add_listener, elbv2.add_targets, apigw.VpcLink, apigw.RestApi,
    apigw.add_resource, apigw.add_method, apigw.root, CfnOutput;
  cbv zeta;
  repeat (apply preserves_bind; [|intros ?]);
  try apply preserves_ret.

(** Whatever the stack adds to a tree carries the stack's health check. *)
Lemma NeelStack_health_checks dns url scope id kwargs t self t' :
  NeelStack dns url scope id kwargs t = inr (self, t') ->
  grown_by stack_health_check t t'.
Proof.
  assert (P : preserves (grown_by stack_health_check t)
                (NeelStack dns url scope id kwargs)).
  { stack_steps;
      try (apply add_child_grows; simpl; auto);
      apply mutate_grows; intros [] c'; simpl; try discriminate;
      intros [= <-]; exact I. }
  apply P. unfold grown_by. apply Forall_forall; auto.
Qed.

(** Paths stay unique. *)
Lemma NeelStack_unique dns url scope id kwargs t self t' :
  NoDup (map fst t) ->
  NeelStack dns url scope id kwargs t = inr (self, t') ->
  NoDup (map fst t').
Proof.
  assert (P : preserves (fun t => NoDup (map fst t))
                (NeelStack dns url scope id kwargs)).
  { stack_steps; first [apply add_child_unique | apply mutate_unique]. }
  intros H E. exact (P _ _ _ H E).
Qed.

Lemma snoc_neq (p : Path) (a b : string) : a <> b -> p ++ [a] <> p ++ [b].
Proof. intros H E. apply app_inv_head in E. congruence. Qed.

(** The nodes a successful instantiation leaves in the tree, each under
    the path the script's variable of that name holds. *)
Lemma NeelStack_declares dns url scope id kwargs t self t' :
  NeelStack dns url scope id kwargs t = inr (self, t') ->
  let vpc := self ++ ["MyVpc"] in
  let security_group := self ++ ["MySecurityGroup"] in
  let instance := self ++ ["MyEC2Instance1"] in
  let nlb := self ++ ["MyNLB"] in
  let listener_80 := nlb ++ ["Listener"] in
  let vpc_link := self ++ ["MyVpcLink"] in
  let api := self ++ ["MyRestApi"] in
  let resource := api ++ ["mynlb"] in
  self = scope ++ [id] /\
  lookup security_group t' =
    Some (SecurityGroupC
            {| sg_vpc := vpc; sg_description := "Allow HTTP inbound traffic";
               allow_all_outbound := true;
               ingress_rules :=
                 [{| rule_peer := any_ipv4; rule_port := tcp 80;
                     rule_description := "Allow HTTP traffic" |}] |}) /\
  lookup instance t' =
    Some (InstanceC
            {| instance_type := "t2.micro";
               machine_image := [("us-east-1", ami_id)];
               instance_vpc := vpc; security_group := security_group;
               vpc_subnets := {| selected_subnet_type := PRIVATE_WITH_EGRESS |};
               user_data := ["#!/bin/bash"; nginx_install_script] |}) /\
  lookup nlb t' =
    Some (NetworkLoadBalancerC
            {| nlb_vpc := vpc; internet_facing := false;
               cross_zone_enabled := true |}) /\
  lookup listener_80 t' =
    Some (NetworkListenerC
            {| listener_load_balancer := nlb; listener_port := 80 |}) /\
  lookup (listener_80 ++ ["TargetGroup"]) t' =
    Some (NetworkTargetGroupC
            {| tg_listener := listener_80; tg_port := 80;
               tg_targets := [InstanceTarget instance];
               health_check :=
                 {| path := "/"; port := "80"; protocol := HTTP;
                    interval := seconds 30; timeout := seconds 10 |} |}) /\
  lookup vpc_link t' = Some (VpcLinkC {| link_targets := [nlb] |}) /\
  lookup api t' = Some (RestApiC {| endpoint_types := [REGIONAL] |}) /\
  lookup resource t' =
    Some (ResourceC {| parent := api; path_part := "mynlb" |}) /\
  lookup (resource ++ ["ANY"]) t' =
    Some (MethodC
            {| method_resource := resource; http_method := "ANY";
               method_integration :=
                 {| integration_type := HTTP_PROXY;
                    integration_http_method := "ANY";
                    uri := ("http://" ++ dns nlb)%string;
                    options := {| connection_type := VPC_LINK;
                                  vpc_link := vpc_link |} |} |}).
Proof.
  intros H. unfold NeelStack in H. cbv zeta in H.
  apply bind_inv in H as (self0 & t1 & E1 & H).
  apply bind_inv in H as (vpc0 & t2 & E2 & H).
  apply bind_inv in H as (o1 & t3 & E3 & H).
  apply bind_inv in H as (sg0 & t4 & E4 & H).
  apply bind_inv in H as (u1 & t5 & E5 & H).
  apply bind_inv in H as (inst0 & t6 & E6 & H).
  apply bind_inv in H as (u2 & t7 & E7 & H).
  apply bind_inv in H as (nlb0 & t8 & E8 & H).
  apply bind_inv in H as (lis0 & t9 & E9 & H).
  apply bind_inv in H as (tg0 & t10 & E10 & H).
  apply bind_inv in H as (link0 & t11 & E11 & H).
  apply bind_inv in H as (api0 & t12 & E12r & H).
  unfold apigw.RestApi in E12r.
  apply bind_inv in E12r as (api1 & t12a & E12 & E12r).
  apply bind_inv in E12r as (o3 & t12b & E12b & E12r).
  injection E12r as <- <-.
  apply bind_inv in H as (res0 & t13 & E13 & H).
  apply bind_inv in H as (meth0 & t14 & E14 & H).
  apply bind_inv in H as (o2 & t15 & E15 & H).
  injection H as <- <-.
  unfold ec2.Vpc, ec2.SecurityGroup, ec2.add_ingress_rule, ec2.Instance,
    ec2.add_commands, elbv2.NetworkLoadBalancer, elbv2.add_listener,
    elbv2.add_targets, apigw.VpcLink, apigw.RestApi, apigw.add_resource,
    apigw.add_method, apigw.root, CfnOutput, ec2.generic_linux in *.
  pose proof (add_child_inv _ _ _ _ _ _ E1) as (-> & _ & _).
  pose proof (add_child_inv _ _ _ _ _ _ E2) as (-> & _ & _).
  pose proof (add_child_inv _ _ _ _ _ _ E4) as (-> & _ & _).
  pose proof (add_child_inv _ _ _ _ _ _ E6) as (-> & _ & _).
  pose proof (add_child_inv _ _ _ _ _ _ E8) as (-> & _ & _).
  pose proof (add_child_inv _ _ _ _ _ _ E9) as (-> & _ & _).
  pose proof (add_child_inv _ _ _ _ _ _ E11) as (-> & _ & _).
  pose proof (add_child_inv _ _ _ _ _ _ E12) as (-> & _ & _).
  pose proof (add_child_inv _ _ _ _ _ _ E13) as (-> & _ & _).
  set (self := scope ++ [id]) in *.
  (* the security group, after its ingress rule and the later steps *)
  assert (Hsg : lookup (self ++ ["MySecurityGroup"]) t7 = Some
            (SecurityGroupC
               {| sg_vpc := self ++ ["MyVpc"];
                  sg_description := "Allow HTTP inbound traffic";
                  allow_all_outbound := true;
                  ingress_rules :=
                    [{| rule_peer := any_ipv4; rule_port := tcp 80;
                        rule_description := "Allow HTTP traffic" |}] |})).
  { pose proof (add_child_lookup_new _ _ _ _ _ _ E4) as L4.
    destruct (mutate_lookup_same _ _ _ _ _ E5) as (c & c' & Lc & Fc & L5).
    rewrite L4 in Lc; injection Lc as <-. simpl in Fc; injection Fc as <-.
    eapply mutate_lookup_other; [exact E7 | |].
    - apply snoc_neq; discriminate.
    - eapply add_child_lookup_old; [exact E6 | exact L5]. }
  assert (Hinst : lookup (self ++ ["MyEC2Instance1"]) t7 = Some
            (InstanceC
               {| instance_type := "t2.micro";
                  machine_image := [("us-east-1", ami_id)];
                  instance_vpc := self ++ ["MyVpc"];
                  security_group := self ++ ["MySecurityGroup"];
                  vpc_subnets :=
                    {| selected_subnet_type := PRIVATE_WITH_EGRESS |};
                  user_data := ["#!/bin/bash"; nginx_install_script] |})).
  { pose proof (add_child_lookup_new _ _ _ _ _ _ E6) as L6.
    destruct (mutate_lookup_same _ _ _ _ _ E7) as (c & c' & Lc & Fc & L7).
    rewrite L6 in Lc; injection Lc as <-. simpl in Fc; injection Fc as <-.
    exact L7. }
  pose proof (add_child_lookup_new _ _ _ _ _ _ E8) as L8.
  pose proof (add_child_lookup_new _ _ _ _ _ _ E9) as L9.
  pose proof (add_child_lookup_new _ _ _ _ _ _ E10) as L10.
  pose proof (add_child_lookup_new _ _ _ _ _ _ E11) as L11.
  pose proof (add_child_lookup_new _ _ _ _ _ _ E12) as L12.
  pose proof (add_child_lookup_new _ _ _ _ _ _ E13) as L13.
  pose proof (add_child_lookup_new _ _ _ _ _ _ E14) as L14.
  pose proof (add_child_inv _ _ _ _ _ _ E10) as (-> & _ & _).
  pose proof (add_child_inv _ _ _ _ _ _ E14) as (-> & _ & _).
  pose proof (fun q d => add_child_lookup_old _ _ _ _ _ _ q d E8) as K8.
  pose proof (fun q d => add_child_lookup_old _ _ _ _ _ _ q d E9) as K9.
  pose proof (fun q d => add_child_lookup_old _ _ _ _ _ _ q d E10) as K10.
  pose proof (fun q d => add_child_lookup_old _ _ _ _ _ _ q d E11) as K11.
  pose proof (fun q d => add_child_lookup_old _ _ _ _ _ _ q d E12) as K12.
  pose proof (fun q d => add_child_lookup_old _ _ _ _ _ _ q d E12b) as K12b.
  pose proof (fun q d => add_child_lookup_old _ _ _ _ _ _ q d E13) as K13.
  pose proof (fun q d => add_child_lookup_old _ _ _ _ _ _ q d E14) as K14.
  pose proof (fun q d => add_child_lookup_old _ _ _ _ _ _ q d E15) as K15.
  cbv zeta. repeat split; auto 20.
Qed.

(** ** Lookups relative to a stack *)

Lemma path_eqb_app (s a b : Path) :
  path_eqb (s ++ a) (s ++ b) = path_eqb a b.
Proof.
  induction s as [|x s IH]; simpl; [reflexivity|].
  now rewrite String.eqb_refl, IH.
Qed.

Lemma lookup_app (p : Path) (t l : Tree) :
  lookup p (t ++ l) =
  match lookup p t with Some c => Some c | None => lookup p l end.
Proof.
  induction t as [|[q d] t IH]; simpl; [reflexivity|].
  destruct (path_eqb p q); auto.
Qed.

Lemma lookup_rebase (self s : Path) (l : Tree) :
  lookup (self ++ s) (rebase self l) = lookup s l.
Proof.
  induction l as [|[q d] l IH]; simpl; [reflexivity|].
  now rewrite path_eqb_app, IH.
Qed.

Lemma update_app_absent (p : Path) (c : Construct) (t l : Tree) :
  lookup p t = None -> update p c (t ++ l) = t ++ update p c l.
Proof.
  induction t as [|[q d] t IH]; simpl; [reflexivity|].
  destruct (path_eqb p q); [discriminate|].
  intros H. now rewrite IH.
Qed.

Lemma update_rebase (self s : Path) (c : Construct) (l : Tree) :
  update (self ++ s) c (rebase self l) = rebase self (update s c l).
Proof.
  induction l as [|[q d] l IH]; simpl; [reflexivity|].
  rewrite path_eqb_app. destruct (path_eqb s q); simpl; [reflexivity|].
  now rewrite IH.
Qed.

Lemma add_child_ok scope id c t :
  scope = [] \/ (exists d, lookup scope t = Some d) ->
  lookup (scope ++ [id]) t = None ->
  add_child scope id c t = inr (scope ++ [id], t ++ [(scope ++ [id], c)]).
Proof.
  intros Hs Hn. unfold add_child. rewrite Hn.
  destruct scope as [|x scope']; [reflexivity|].
  destruct Hs as [Hs | [d Hd]]; [discriminate|]. now rewrite Hd.
Qed.

Lemma bind_ok {A B} (m : M A) (k : A -> M B) t a t1 :
  m t = inr (a, t1) -> bind m k t = k a t1.
Proof. intros E. unfold bind. now rewrite E. Qed.

Ltac rel_path :=
  first [ reflexivity
        | symmetry; apply app_nil_r
        | rewrite <- !app_assoc; reflexivity ].

Lemma bind_assoc {A B C} (m : M A) (f : A -> M B) (g : B -> M C) t :
  bind (bind m f) g t = bind m (fun a => bind (f a) g) t.
Proof. unfold bind. now destruct (m t) as [e|[a t1]]. Qed.

Lemma bind_ret {A B} (a : A) (k : A -> M B) t : bind (ret a) k t = k a t.
Proof. reflexivity. Qed.

(** Ids are unique within a scope: a second stack under the same id is
    refused, one under another id is accepted. *)
Example NeelStack_same_id_refused :
  NeelStack sample_dns sample_url [] "NeelStack" sample_kwargs sample_tree
    = inl (DuplicateConstruct ["NeelStack"]).
Proof. reflexivity. Qed.

Example NeelStack_second_stack_accepted :
  NeelStack sample_dns sample_url [] "NeelStack2" sample_kwargs sample_tree
    = inr (["NeelStack2"], sample_tree2).
Proof. reflexivity. Qed.

(** ** The assembled topology *)

(** C9: in every tree the stack is instantiated in, the stack declares its
    target group, and every target group it adds is health-checked every
    30 seconds with a 10 second timeout, so the timeout is strictly below
    the interval. *)
Theorem health_check_timeout_below_interval
    dns url scope id kwargs t self t' :
  NeelStack dns url scope id kwargs t = inr (self, t') ->
  (exists g,
     lookup (((self ++ ["MyNLB"]) ++ ["Listener"]) ++ ["TargetGroup"]) t'
       = Some (NetworkTargetGroupC g)) /\
  forall p g, In (p, NetworkTargetGroupC g) t' ->
    In (p, NetworkTargetGroupC g) t \/
    (timeout (health_check g) = seconds 10 /\
     interval (health_check g) = seconds 30 /\
     to_seconds (timeout (health_check g))
       < to_seconds (interval (health_check g))).
Proof.
  intros E. split.
  - pose proof (NeelStack_declares _ _ _ _ _ _ _ _ E) as D. cbv zeta in D.
    destruct D as (_ & _ & _ & _ & _ & D & _). eauto.
  - intros p g Hin.
    pose proof (NeelStack_health_checks _ _ _ _ _ _ _ _ E) as G.
    unfold grown_by in G. rewrite Forall_forall in G.
    destruct (G _ Hin) as [Hold | [Ht Hi]]; [now left | right].
    simpl in Ht, Hi. rewrite Ht, Hi. simpl. repeat split; lia.
Qed.

Lemma health_check_timeout_below_interval_witness :
  NeelStack sample_dns sample_url [] "NeelStack" sample_kwargs []
    = inr (["NeelStack"], sample_tree) /\
  forall p g, In (p, NetworkTargetGroupC g) sample_tree ->
    to_seconds (timeout (health_check g))
      < to_seconds (interval (health_check g)).
Proof.
  split; [reflexivity|].
  intros p g Hin.
  destruct (health_check_timeout_below_interval sample_dns sample_url
              [] "NeelStack" sample_kwargs [] ["NeelStack"] sample_tree
              eq_refl) as [_ H].
  destruct (H p g Hin) as [[] | (_ & _ & Hlt)]. exact Hlt.
Defined.

Lemma NeelStack_proxy_routes dns url scope id kwargs t self t' :
  NeelStack dns url scope id kwargs t = inr (self, t') ->
  grown_by (stack_proxy_route dns) t t'.
Proof.
  assert (P : preserves (grown_by (stack_proxy_route dns) t)
                (NeelStack dns url scope id kwargs)).
  { stack_steps;
      try (apply add_child_grows; simpl; eauto 10);
      apply mutate_grows; intros [] c'; simpl; try discriminate;
      intros [= <-]; exact I. }
  intros E. apply (P _ _ _ (proj2 (Forall_forall _ _) (fun x H => or_introl H)) E).
Qed.

(** C10: the stack's proxy route is the method [ANY] on the resource
    [mynlb] directly under the API root; its integration is an HTTP proxy
    over the VPC link whose URI is ["http://"] followed by the DNS name of
    the stack's load balancer; and the stack adds no other resource or
    method. *)
Theorem proxy_route_backend dns url scope id kwargs t self t' :
  NeelStack dns url scope id kwargs t = inr (self, t') ->
  let nlb := self ++ ["MyNLB"] in
  let vpc_link := self ++ ["MyVpcLink"] in
  let api := self ++ ["MyRestApi"] in
  let resource := api ++ ["mynlb"] in
  (exists n, lookup nlb t' = Some (NetworkLoadBalancerC n)) /\
  lookup vpc_link t' = Some (VpcLinkC {| link_targets := [nlb] |}) /\
  (exists a, lookup api t' = Some (RestApiC a)) /\
  lookup resource t' =
    Some (ResourceC {| parent := apigw.root api; path_part := "mynlb" |}) /\
  lookup (resource ++ ["ANY"]) t' =
    Some (MethodC
            {| method_resource := resource; http_method := "ANY";
               method_integration :=
                 {| integration_type := HTTP_PROXY;
                    integration_http_method := "ANY";
                    uri := ("http://" ++ dns nlb)%string;
                    options := {| connection_type := VPC_LINK;
                                  vpc_link := vpc_link |} |} |}) /\
  (forall p r, In (p, ResourceC r) t' ->
     In (p, ResourceC r) t \/ path_part r = "mynlb") /\
  (forall p m, In (p, MethodC m) t' ->
     In (p, MethodC m) t \/
     (http_method m = "ANY" /\
      integration_type (method_integration m) = HTTP_PROXY /\
      connection_type (options (method_integration m)) = VPC_LINK /\
      exists lb, uri (method_integration m) = ("http://" ++ dns lb)%string)).
Proof.
  intros E. cbv zeta.
  pose proof (NeelStack_declares _ _ _ _ _ _ _ _ E) as D. cbv zeta in D.
  destruct D as (_ & _ & _ & Dn & _ & _ & Dl & Da & Dr & Dm).
  pose proof (NeelStack_proxy_routes _ _ _ _ _ _ _ _ E) as G.
  unfold grown_by in G. rewrite Forall_forall in G.
  split; [eauto|]. split; [exact Dl|]. split; [eauto|].
  split; [exact Dr|]. split; [exact Dm|]. split.
  - intros p r Hin. destruct (G _ Hin) as [|Q]; [now left | right; exact Q].
  - intros p m Hin. destruct (G _ Hin) as [|(Q1 & Q2 & _ & Q3 & Q4)];
      [now left | right; auto].
Qed.

Lemma proxy_route_backend_witness :
  NeelStack sample_dns sample_url [] "NeelStack" sample_kwargs []
    = inr (["NeelStack"], sample_tree) /\
  exists m,
    lookup ["NeelStack"; "MyRestApi"; "mynlb"; "ANY"] sample_tree
      = Some (MethodC m) /\
    uri (method_integration m) = "http://internal-nlb.elb.amazonaws.com".
Proof.
  split; [reflexivity|].
  destruct (proxy_route_backend sample_dns sample_url [] "NeelStack"
              sample_kwargs [] ["NeelStack"] sample_tree eq_refl)
    as (_ & _ & _ & _ & Hm & _).
  eexists; split; [exact Hm | reflexivity].
Defined.



(** ** The stack as a component of a larger tree *)

Lemma lookup_at (self s : Path) (t l : Tree) :
  lookup (self ++ s) t = None ->
  lookup (self ++ s) (t ++ rebase self l) = lookup s l.
Proof.
  intros H. now rewrite lookup_app, H, lookup_rebase.
Qed.

Lemma add_child_at self s scope id c t l :
  scope = self ++ s ->
  lookup (self ++ s) t = None ->
  lookup (self ++ (s ++ [id])) t = None ->
  (exists d, lookup s l = Some d) ->
  lookup (s ++ [id]) l = None ->
  add_child scope id c (t ++ rebase self l) =
  inr (scope ++ [id], t ++ rebase self (l ++ [(s ++ [id], c)])).
Proof.
  intros -> Hs Hp [d Hd] Hn.
  rewrite add_child_ok.
  - unfold rebase. rewrite map_app, app_assoc. simpl.
    now rewrite (app_assoc self s [id]).
  - right. exists d. now rewrite lookup_at.
  - now rewrite <- app_assoc, lookup_at.
Qed.

Lemma mutate_at self s p f t l c c' :
  p = self ++ s ->
  lookup (self ++ s) t = None ->
  lookup s l = Some c -> f c = Some c' ->
  mutate p f (t ++ rebase self l) =
  inr (tt, t ++ rebase self (update s c' l)).
Proof.
  intros -> Hs Hc Hfc. unfold mutate.
  rewrite lookup_at, Hc, Hfc by assumption.
  now rewrite update_app_absent, update_rebase.
Qed.

Ltac fresh_path H := apply H; simpl; auto 20.

Ltac at_step H :=
  repeat rewrite bind_assoc; repeat rewrite bind_ret;
  erewrite bind_ok;
  [| first
       [ eapply add_child_at;
         [ rel_path | fresh_path H | fresh_path H
         | eexists; reflexivity | reflexivity ]
       | eapply mutate_at;
         [ rel_path | fresh_path H | reflexivity | reflexivity ] ] ];
  cbn [app update path_eqb String.eqb Ascii.eqb Bool.eqb andb].

(** In the model, a constructor that finds its paths free runs to the end
    and leaves its nodes behind the tree it found. *)
Lemma NeelStack_fresh_run dns url scope id kwargs t :
  scope = [] \/ (exists d, lookup scope t = Some d) ->
  fresh_for (scope ++ [id]) t ->
  NeelStack dns url scope id kwargs t =
  inr (scope ++ [id], t ++ stack_constructs dns url (scope ++ [id]) kwargs).
Proof.
  intros Hs Hf.
  assert (E1 : add_child scope id (StackC kwargs) t =
               inr (scope ++ [id],
                    t ++ rebase (scope ++ [id]) [([], StackC kwargs)])).
  { rewrite add_child_ok; auto.
    - simpl. now rewrite app_nil_r.
    - specialize (Hf [] (or_introl eq_refl)). now rewrite app_nil_r in Hf. }
  remember (scope ++ [id]) as self eqn:Eself. clear Eself Hs.
  unfold fresh_for in Hf.
  unfold NeelStack. cbv zeta.
  unfold ec2.Vpc, ec2.SecurityGroup, ec2.add_ingress_rule, ec2.Instance,
    ec2.add_commands, elbv2.NetworkLoadBalancer, elbv2.add_listener,
    elbv2.add_targets, apigw.VpcLink, apigw.RestApi, apigw.add_resource,
    apigw.add_method, apigw.root, CfnOutput, ec2.generic_linux.
  rewrite (bind_ok _ _ _ _ _ E1).
  do 15 (at_step Hf).
  reflexivity.
Qed.

Lemma add_child_absent scope id c t p t' q :
  add_child scope id c t = inr (p, t') ->
  lookup q t' = None -> lookup q t = None.
Proof.
  intros E. apply add_child_inv in E as (_ & _ & ->).
  rewrite lookup_app. destruct (lookup q t); [discriminate | reflexivity].
Qed.

Lemma mutate_absent p f t u t' q :
  mutate p f t = inr (u, t') ->
  lookup q t' = None -> lookup q t = None.
Proof.
  intros E. apply mutate_inv in E as (c & c' & _ & _ & ->).
  rewrite lookup_update.
  destruct (path_eqb q p); [|auto].
  destruct (lookup q t); [discriminate | reflexivity].
Qed.

Lemma add_child_scope_ok scope id c t p t' :
  add_child scope id c t = inr (p, t') ->
  scope = [] \/ (exists d, lookup scope t = Some d).
Proof.
  destruct scope as [|x scope']; [now left|].
  intros E. right. eapply add_child_scope; exact E.
Qed.

(** A run that succeeds found its place fresh. *)
Lemma NeelStack_run_fresh dns url scope id kwargs t self t' :
  NeelStack dns url scope id kwargs t = inr (self, t') ->
  self = scope ++ [id] /\
  (scope = [] \/ (exists d, lookup scope t = Some d)) /\
  fresh_for self t.
Proof.
  intros H. unfold NeelStack in H. cbv zeta in H.
  apply bind_inv in H as (self0 & t1 & E1 & H).
  apply bind_inv in H as (vpc0 & t2 & E2 & H).
  apply bind_inv in H as (o1 & t3 & E3 & H).
  apply bind_inv in H as (sg0 & t4 & E4 & H).
  apply bind_inv in H as (u1 & t5 & E5 & H).
  apply bind_inv in H as (inst0 & t6 & E6 & H).
  apply bind_inv in H as (u2 & t7 & E7 & H).
  apply bind_inv in H as (nlb0 & t8 & E8 & H).
  apply bind_inv in H as (lis0 & t9 & E9 & H).
  apply bind_inv in H as (tg0 & t10 & E10 & H).
  apply bind_inv in H as (link0 & t11 & E11 & H).
  apply bind_inv in H as (api0 & t12 & E12r & H).
  unfold apigw.RestApi in E12r.
  apply bind_inv in E12r as (api1 & t12a & E12 & E12r).
  apply bind_inv in E12r as (o3 & t12b & E12b & E12r).
  injection E12r as <- <-.
  apply bind_inv in H as (res0 & t13 & E13 & H).
  apply bind_inv in H as (meth0 & t14 & E14 & H).
  apply bind_inv in H as (o2 & t15 & E15 & H).
  injection H as <- <-.
  unfold ec2.Vpc, ec2.SecurityGroup, ec2.add_ingress_rule, ec2.Instance,
    ec2.add_commands, elbv2.NetworkLoadBalancer, elbv2.add_listener,
    elbv2.add_targets, apigw.VpcLink, apigw.RestApi, apigw.add_resource,
    apigw.add_method, apigw.root, CfnOutput, ec2.generic_linux in *.
  pose proof (add_child_scope_ok _ _ _ _ _ _ E1) as Hscope.
  pose proof (fun q => add_child_absent _ _ _ _ _ _ q E1) as B1.
  pose proof (fun q => add_child_absent _ _ _ _ _ _ q E2) as B2.
  pose proof (fun q => add_child_absent _ _ _ _ _ _ q E3) as B3.
  pose proof (fun q => add_child_absent _ _ _ _ _ _ q E4) as B4.
  pose proof (fun q => mutate_absent _ _ _ _ _ q E5) as B5.
  pose proof (fun q => add_child_absent _ _ _ _ _ _ q E6) as B6.
  pose proof (fun q => mutate_absent _ _ _ _ _ q E7) as B7.
  pose proof (fun q => add_child_absent _ _ _ _ _ _ q E8) as B8.
  pose proof (fun q => add_child_absent _ _ _ _ _ _ q E9) as B9.
  pose proof (fun q => add_child_absent _ _ _ _ _ _ q E10) as B10.
  pose proof (fun q => add_child_absent _ _ _ _ _ _ q E11) as B11.
  pose proof (fun q => add_child_absent _ _ _ _ _ _ q E12) as B12.
  pose proof (fun q => add_child_absent _ _ _ _ _ _ q E12b) as B12b.
  pose proof (fun q => add_child_absent _ _ _ _ _ _ q E13) as B13.
  pose proof (fun q => add_child_absent _ _ _ _ _ _ q E14) as B14.
  apply add_child_inv in E1 as (-> & N1 & _).
  apply add_child_inv in E2 as (-> & N2 & _).
  apply add_child_inv in E3 as (-> & N3 & _).
  apply add_child_inv in E4 as (-> & N4 & _).
  apply add_child_inv in E6 as (-> & N6 & _).
  apply add_child_inv in E8 as (-> & N8 & _).
  apply add_child_inv in E9 as (-> & N9 & _).
  apply add_child_inv in E10 as (-> & N10 & _).
  apply add_child_inv in E11 as (-> & N11 & _).
  apply add_child_inv in E12 as (-> & N12 & _).
  apply add_child_inv in E12b as (-> & N12b & _).
  apply add_child_inv in E13 as (-> & N13 & _).
  apply add_child_inv in E14 as (-> & N14 & _).
  apply add_child_inv in E15 as (-> & N15 & _).
  set (self := scope ++ [id]) in *.
  repeat rewrite <- app_assoc in N9. repeat rewrite <- app_assoc in N10.
  repeat rewrite <- app_assoc in N13. repeat rewrite <- app_assoc in N14.
  repeat rewrite <- app_assoc in N12b.
  simpl in N9, N10, N12b, N13, N14.
  split; [reflexivity|]. split; [exact Hscope|].
  intros s Hin. simpl in Hin.
  repeat destruct Hin as [<-|Hin]; try contradiction;
    rewrite ?app_nil_r; auto 20.
Qed.

Lemma NeelStack_result dns url scope id kwargs t self t' :
  NeelStack dns url scope id kwargs t = inr (self, t') ->
  self = scope ++ [id] /\
  fresh_for self t /\
  t' = t ++ stack_constructs dns url self kwargs.
Proof.
  intros E.
  destruct (NeelStack_run_fresh _ _ _ _ _ _ _ _ E) as (-> & Hs & Hf).
  rewrite (NeelStack_fresh_run dns url scope id kwargs t Hs Hf) in E.
  injection E as <-. auto.
Qed.

(** X1: a successful instantiation changes and removes nothing: every
    node the tree had is still there with the same construct, the tree
    found is the beginning of the resulting tree, and every node added
    lies at or below the stack's own path.  In particular the two calls
    made after construction touch constructs of the stack only. *)
Theorem NeelStack_frame dns url scope id kwargs t self t' :
  NeelStack dns url scope id kwargs t = inr (self, t') ->
  (forall q d, lookup q t = Some d -> lookup q t' = Some d) /\
  exists l,
    t' = t ++ l /\
    forall p c, In (p, c) l -> exists s, p = self ++ s.
Proof.
  intros E. destruct (NeelStack_result _ _ _ _ _ _ _ _ E) as (_ & _ & ->).
  split.
  - intros q d H. now apply lookup_app_old.
  - eexists. split; [reflexivity|].
    intros p c Hin. unfold stack_constructs, rebase in Hin. cbv zeta in Hin.
    apply in_map_iff in Hin as ([s c'] & [= <- _] & _). now exists s.
Qed.

Lemma NeelStack_frame_witness :
  NeelStack sample_dns sample_url [] "NeelStack2" sample_kwargs sample_tree
    = inr (["NeelStack2"], sample_tree2) /\
  exists d,
    lookup ["NeelStack"; "MyEC2Instance1"] sample_tree = Some d /\
    lookup ["NeelStack"; "MyEC2Instance1"] sample_tree2 = Some d.
Proof.
  split; [reflexivity|].
  destruct (NeelStack_frame sample_dns sample_url [] "NeelStack2"
              sample_kwargs sample_tree ["NeelStack2"] sample_tree2 eq_refl)
    as [H _].
  eexists. split; [reflexivity|]. apply H. reflexivity.
Defined.

Lemma is_prefix_app (s a b : Path) :
  is_prefix (s ++ a) (s ++ b) = is_prefix a b.
Proof.
  induction s as [|x s IH]; simpl; [reflexivity|].
  now rewrite String.eqb_refl, IH.
Qed.

Lemma is_prefix_inv (q p : Path) :
  is_prefix q p = true -> exists x, p = q ++ x.
Proof.
  revert p. induction q as [|a q IH]; intros p H; simpl in *; [now exists p|].
  destruct p as [|b p]; [discriminate|].
  apply andb_true_iff in H as [Hab Hq]. apply String.eqb_eq in Hab as ->.
  destruct (IH _ Hq) as [x ->]. now exists x.
Qed.

Lemma strictly_above_app (s a b : Path) :
  strictly_above (s ++ a) (s ++ b) = strictly_above a b.
Proof. unfold strictly_above. now rewrite is_prefix_app, path_eqb_app. Qed.

Lemma In_lookup (p : Path) (c : Construct) (t : Tree) :
  In (p, c) t -> lookup p t <> None.
Proof.
  intros H E. apply lookup_None in E. apply E.
  now apply (in_map fst) in H.
Qed.

Lemma not_below (self p : Path) (t : Tree) (c : Construct) :
  nothing_below self t -> In (p, c) t -> is_prefix self p = false.
Proof.
  intros Hn Hin. destruct (is_prefix self p) eqn:E; [|reflexivity].
  apply is_prefix_inv in E as [x ->].
  now destruct (In_lookup _ _ _ Hin (Hn x)).
Qed.

Lemma filter_none {A} (f : A -> bool) (l : list A) :
  (forall x, In x l -> f x = false) -> filter f l = [].
Proof.
  induction l as [|a l IH]; intros H; simpl; [reflexivity|].
  rewrite (H a (or_introl eq_refl)). apply IH. intros x Hx. apply H. now right.
Qed.

(** Ownership within a stack added to a tree that had nothing below the
    stack's path is decided by the stack's own nodes. *)
Lemma owns_rel (self q : Path) (t l : Tree) :
  nothing_below self t ->
  owns (t ++ rebase self l) self (self ++ q) = owns l [] q.
Proof.
  intros Hn. unfold owns.
  rewrite <- (app_nil_r self) at 1. rewrite strictly_above_app. f_equal. f_equal.
  rewrite existsb_app.
  replace (existsb _ t) with false.
  - simpl. induction l as [|[r d] l IH]; simpl; [reflexivity|].
    rewrite IH, strictly_above_app.
    rewrite <- (app_nil_r self) at 1. now rewrite strictly_above_app.
  - symmetry. apply not_true_is_false. intros H.
    apply existsb_exists in H as ([r d] & Hin & H). simpl in H.
    apply andb_true_iff in H as [H _]. apply andb_true_iff in H as [_ H].
    unfold strictly_above in H. apply andb_true_iff in H as [H _].
    now rewrite (not_below _ _ _ _ Hn Hin) in H.
Qed.

Lemma owned_rel (self : Path) (t l : Tree) :
  nothing_below self t ->
  filter (fun pc => owns (t ++ rebase self l) self (fst pc))
    (t ++ rebase self l)
  = rebase self (filter (fun pc => owns l [] (fst pc)) l).
Proof.
  intros Hn. rewrite filter_app, filter_none.
  - simpl. generalize l at 1 3 as l0. intros l0.
    induction l as [|[r d] l IH]; simpl; [reflexivity|].
    rewrite (owns_rel self r t l0 Hn).
    destruct (owns l0 [] r); simpl; now rewrite IH.
  - intros [p c] Hin. simpl. unfold owns, strictly_above.
    now rewrite (not_below _ _ _ _ Hn Hin).
Qed.

Lemma skipn_length_app {A} (l x : list A) : skipn (length l) (l ++ x) = x.
Proof. induction l; simpl; auto. Qed.

Lemma outputs_of_rebase (logical_id : Path -> string) (self : Path) (l : Tree) :
  outputs_of logical_id self (rebase self l) = outputs_of logical_id [] l.
Proof.
  induction l as [|[r d] l IH]; simpl; [reflexivity|].
  destruct d; simpl; rewrite ?IH; try reflexivity.
  now rewrite skipn_length_app.
Qed.

(** X3: when the stack is instantiated where nothing sat at or below its
    path, the synthesized assembly has a template for it, and that
    template carries exactly three outputs: the AMI id the stack
    declares, the [Endpoint] the REST API declares by itself, and the
    endpoint the stack declares, the last two with the URL of the
    stack's own REST API; each is named by the logical id of its path
    within the stack. *)
Theorem NeelStack_outputs dns url logical_id scope id kwargs t self t' :
  nothing_below self t ->
  NeelStack dns url scope id kwargs t = inr (self, t') ->
  In (self, template logical_id t' self) (synth logical_id t') /\
  outputs (template logical_id t' self) =
    [ (logical_id ["AMI_ID"], ami_id);
      (logical_id ["MyRestApi"; "Endpoint"], url (self ++ ["MyRestApi"]));
      (logical_id ["ApiEndpoint"], url (self ++ ["MyRestApi"])) ].
Proof.
  intros Hn E. destruct (NeelStack_result _ _ _ _ _ _ _ _ E) as (_ & _ & ->).
  split.
  - unfold synth. apply (in_map (fun s => (s, template logical_id _ s))).
    unfold stacks. apply (in_map_iff fst). exists (self, StackC kwargs).
    split; [reflexivity|]. apply filter_In. split; [|reflexivity].
    apply in_or_app; right. unfold stack_constructs, rebase; cbv zeta.
    left. simpl. now rewrite app_nil_r.
  - unfold template; cbn [outputs]. unfold stack_constructs; cbv zeta.
    rewrite (owned_rel self t _ Hn), outputs_of_rebase. reflexivity.
Qed.

Lemma NeelStack_outputs_witness :
  nothing_below ["NeelStack2"] sample_tree /\
  NeelStack sample_dns sample_url [] "NeelStack2" sample_kwargs sample_tree
    = inr (["NeelStack2"], sample_tree2) /\
  map fst (outputs (template sample_logical_id sample_tree2 ["NeelStack2"]))
    = ["AMI_ID"; "MyRestApiEndpoint"; "ApiEndpoint"].
Proof.
  assert (Hn : nothing_below ["NeelStack2"] sample_tree)
    by (intros s; reflexivity).
  split; [exact Hn|]. split; [reflexivity|].
  destruct (NeelStack_outputs sample_dns sample_url sample_logical_id []
              "NeelStack2" sample_kwargs sample_tree ["NeelStack2"]
              sample_tree2 Hn eq_refl) as [_ H].
  rewrite H. reflexivity.
Defined.



Ltac flat_paths := repeat rewrite <- app_assoc; cbn [app].

(** Lookups at the stack's own paths, after a run. *)
Ltac stack_lookup Hf :=
  flat_paths; unfold stack_constructs; cbv zeta;
  rewrite lookup_at by (fresh_path Hf); cbn [app].

(** X5: adding the stack keeps a tree closed under references: if every
    handle in the tree resolved before, every handle resolves after, both
    those of the older constructs and those the stack's own constructs
    hold. *)
Theorem NeelStack_keeps_resolved dns url scope id kwargs t self t' :
  Resolved t ->
  NeelStack dns url scope id kwargs t = inr (self, t') ->
  Resolved t'.
Proof.
  intros R E. destruct (NeelStack_result _ _ _ _ _ _ _ _ E) as (_ & Hf & ->).
  unfold fresh_for in Hf.
  intros p c Hin r Hr. apply in_app_or in Hin as [Hin|Hin].
  - destruct (R p c Hin r Hr) as (d & Hd & Hk).
    exists d. split; [now apply lookup_app_old | exact Hk].
  - unfold stack_constructs, rebase in Hin. cbv zeta in Hin.
    cbn [map fst snd] in Hin.
    repeat destruct Hin as [Hin|Hin]; try contradiction;
      injection Hin as <- <-; cbn [references map target_instance
        sg_vpc instance_vpc security_group nlb_vpc listener_load_balancer
        tg_listener tg_targets link_targets parent method_resource
        method_integration options vpc_link] in Hr;
      repeat destruct Hr as [<-|Hr]; try contradiction;
      unfold resolves; cbn [fst snd]; stack_lookup Hf;
      (eexists; split; [reflexivity | simpl; auto]).
Qed.

Lemma NeelStack_keeps_resolved_witness :
  Resolved sample_tree /\
  NeelStack sample_dns sample_url [] "NeelStack2" sample_kwargs sample_tree
    = inr (["NeelStack2"], sample_tree2) /\
  Resolved sample_tree2.
Proof.
  assert (R : Resolved sample_tree)
    by (apply resolvedb_sound; vm_compute; reflexivity).
  split; [exact R|]. split; [reflexivity|].
  exact (NeelStack_keeps_resolved sample_dns sample_url [] "NeelStack2"
           sample_kwargs sample_tree ["NeelStack2"] sample_tree2 R eq_refl).
Defined.

(** X6: wherever the stack is instantiated, the resulting tree holds the
    whole chain of the scenario (route, VPC link, internal load balancer,
    listener, target group, instance), and the instance is placed in a
    tier its VPC declares, with a security group of that same VPC. *)
Theorem NeelStack_wiring dns url scope id kwargs t self t' :
  NeelStack dns url scope id kwargs t = inr (self, t') ->
  canonical t' /\
  exists i,
    lookup (self ++ ["MyEC2Instance1"]) t' = Some (InstanceC i) /\
    placed t' i.
Proof.
  intros E. destruct (NeelStack_result _ _ _ _ _ _ _ _ E) as (_ & Hf & ->).
  unfold fresh_for in Hf. split.
  - unfold canonical. do 16 eexists.
    repeat match goal with
           | |- _ /\ _ => split
           | |- In _ (_ ++ _) =>
               apply in_or_app; right;
               unfold stack_constructs, rebase; cbv zeta;
               cbn [map fst snd app]; simpl; eauto 20
           | |- _ = _ => first [reflexivity | flat_paths; reflexivity]
           end.
  - eexists. split; [stack_lookup Hf; reflexivity|].
    unfold placed. cbn [instance_vpc security_group vpc_subnets
                        selected_subnet_type].
    do 2 eexists.
    split; [stack_lookup Hf; reflexivity|].
    split; [simpl; auto|].
    split; [stack_lookup Hf; reflexivity | reflexivity].
Qed.

Lemma NeelStack_wiring_witness :
  NeelStack sample_dns sample_url ["NeelStack"] "Inner" sample_kwargs
    sample_tree
  = inr (["NeelStack"; "Inner"],
         sample_tree ++
         stack_constructs sample_dns sample_url ["NeelStack"; "Inner"]
           sample_kwargs) /\
  exists i,
    lookup ["NeelStack"; "Inner"; "MyEC2Instance1"]
      (sample_tree ++
       stack_constructs sample_dns sample_url ["NeelStack"; "Inner"]
         sample_kwargs) = Some (InstanceC i) /\
    security_group i = ["NeelStack"; "Inner"; "MySecurityGroup"].
Proof.
  split; [reflexivity|].
  destruct (NeelStack_wiring sample_dns sample_url ["NeelStack"] "Inner"
              sample_kwargs sample_tree ["NeelStack"; "Inner"] _ eq_refl)
    as (_ & i & Hi & _).
  exists i. split; [exact Hi|].
  vm_compute in Hi. injection Hi as <-. reflexivity.
Defined.

(** X7: nothing the stack adds is exposed directly: every security group
    it adds admits TCP port 80 only, every instance it adds sits in the
    private tier, and every load balancer it adds is internal. *)
Theorem NeelStack_private_backend dns url scope id kwargs t self t' :
  NeelStack dns url scope id kwargs t = inr (self, t') ->
  forall p c, In (p, c) t' -> In (p, c) t \/ private_backend c.
Proof.
  intros E p c Hin.
  destruct (NeelStack_result _ _ _ _ _ _ _ _ E) as (_ & _ & ->).
  apply in_app_or in Hin as [Hin|Hin]; [now left | right].
  unfold stack_constructs, rebase in Hin. cbv zeta in Hin.
  cbn [map fst snd] in Hin.
  repeat destruct Hin as [Hin|Hin]; try contradiction;
    injection Hin as <- <-; simpl; auto.
  intros r [<-|[]]. reflexivity.
Qed.

Lemma NeelStack_private_backend_witness :
  NeelStack sample_dns sample_url [] "NeelStack" sample_kwargs []
    = inr (["NeelStack"], sample_tree) /\
  forall p n, In (p, NetworkLoadBalancerC n) sample_tree ->
    internet_facing n = false.
Proof.
  split; [reflexivity|]. intros p n Hin.
  destruct (NeelStack_private_backend sample_dns sample_url [] "NeelStack"
              sample_kwargs [] ["NeelStack"] sample_tree eq_refl _ _ Hin)
    as [[] | H].
  exact H.
Defined.

(** X8: the two calls made after construction take effect on the
    constructs just created and survive the rest of the constructor: the
    security group ends with exactly one ingress rule (TCP 80 from any
    IPv4 address), and the instance's user data is the default shebang
    line followed by the nginx install script, once and unaltered. *)
Theorem NeelStack_post_construction dns url scope id kwargs t self t' :
  NeelStack dns url scope id kwargs t = inr (self, t') ->
  (exists g,
     lookup (self ++ ["MySecurityGroup"]) t' = Some (SecurityGroupC g) /\
     ingress_rules g =
       [{| rule_peer := any_ipv4; rule_port := tcp 80;
           rule_description := "Allow HTTP traffic" |}]) /\
  (exists i,
     lookup (self ++ ["MyEC2Instance1"]) t' = Some (InstanceC i) /\
     user_data i = ["#!/bin/bash"; nginx_install_script]).
Proof.
  intros E. pose proof (NeelStack_declares _ _ _ _ _ _ _ _ E) as D.
  cbv zeta in D. destruct D as (_ & Dg & Di & _).
  split; eexists; (split; [eassumption | reflexivity]).
Qed.

Lemma NeelStack_post_construction_witness :
  NeelStack sample_dns sample_url [] "NeelStack" sample_kwargs []
    = inr (["NeelStack"], sample_tree) /\
  exists i,
    lookup ["NeelStack"; "MyEC2Instance1"] sample_tree = Some (InstanceC i) /\
    user_data i = ["#!/bin/bash"; nginx_install_script].
Proof.
  split; [reflexivity|].
  exact (proj2 (NeelStack_post_construction sample_dns sample_url []
                  "NeelStack" sample_kwargs [] ["NeelStack"] sample_tree
                  eq_refl)).
Defined.
